(** * smol-layout: Unicode line-break scanning and greedy width-driven wrapping

    A shallow embedding of [src/lib.rs]:
    - [break_property] (the two-level codepoint classifier),
    - [linebreaks] (the pair-table automaton with the ZWJ flag),
    - [apply_newlines] (the re-scanning greedy wrapper).

    Representation choices.
    - A Rust [char] is its Unicode scalar value, a [Z]; a [&str] / [String]
      is the list of its chars; byte offsets are computed from the UTF-8
      length of each char, as [char_indices] and [len] do.
    - [usize] widths are [N]; [current_width += w] is the wrapping addition
      of a 64-bit release build ([usize_add]).
    - The font [HashMap<char, usize>] is a [gmap Z N].
    - The generated tables ([PAGE_INDICES], [BREAK_PROP_DATA], [PAIR_TABLE],
      the class discriminants and the break bits) come from [tables.rs] and
      [shared.rs], produced outside [src/]; they are Section variables, so
      every theorem holds for every table. *)

From Stdlib Require Import ZArith NArith List String Ascii Lia.
From stdpp Require Import base gmap list.

Import ListNotations.

Set Default Proof Using "Type".

(* ------------------------------------------------------------------ *)
(** ** Characters and strings *)

Definition newline : Z := 10%Z.
Definition null_char : Z := 0%Z.

(** Number of bytes of the UTF-8 encoding of a char ([char::len_utf8]). *)
Definition len_utf8 (c : Z) : nat :=
  if (c <? 128)%Z then 1
  else if (c <? 2048)%Z then 2
  else if (c <? 65536)%Z then 3
  else 4.

(** [str::char_indices] from a starting byte offset. *)
Fixpoint char_indices_from (off : nat) (s : list Z) : list (nat * Z) :=
  match s with
  | [] => []
  | c :: r => (off, c) :: char_indices_from (off + len_utf8 c) r
  end.

Definition char_indices (s : list Z) : list (nat * Z) := char_indices_from 0 s.

(** [str::len]: the length in bytes. *)
Definition str_len (s : list Z) : nat := fold_right (fun c n => len_utf8 c + n) 0 s.

(** ASCII string literals as lists of chars, for examples. *)
Definition str (s : string) : list Z :=
  map (fun a => Z.of_nat (nat_of_ascii a)) (list_ascii_of_string s).

(* ------------------------------------------------------------------ *)
(** ** The codepoint classifier ([break_property]) *)

Section Classifier.
(** [PAGE_INDICES: [usize; _]], [BREAK_PROP_DATA: [[BreakClass; 256]; _]]
    and [UNIFORM_PAGE] from the generated [tables.rs]. A [BreakClass] is
    represented by its [u8] discriminant ([#[repr(u8)]]); the valid
    discriminants are [0 .. BREAK_CLASS_COUNT - 1] and [Unknown] is one
    of them. *)
Variable PAGE_INDICES : list Z.
Variable BREAK_PROP_DATA : list (list Z).
Variable UNIFORM_PAGE : Z.
Variable BREAK_CLASS_COUNT : Z.
Variable Unknown : Z.

(** [mem::transmute::<u8, BreakClass>]: defined only on a valid
    discriminant; [None] stands for undefined behaviour. *)
Definition transmute_break_class (v : Z) : option Z :=
  if ((0 <=? v) && (v <? BREAK_CLASS_COUNT))%Z then Some v else None.

(** [fn break_property(codepoint: u32) -> BreakClass]. [None] stands for
    a panic (out-of-bounds indexing) or undefined behaviour (invalid
    transmute). *)
Definition break_property (codepoint : Z) : option Z :=
  match PAGE_INDICES !! Z.to_nat (Z.shiftr codepoint 8) with
  | Some page_idx =>
      if negb (Z.land page_idx UNIFORM_PAGE =? 0)%Z then
        transmute_break_class
          (Z.land (Z.land page_idx (Z.lnot UNIFORM_PAGE)) 255)
      else
        match BREAK_PROP_DATA !! Z.to_nat page_idx with
        | Some page => page !! Z.to_nat (Z.land codepoint 255)
        | None => None
        end
  | None => Some Unknown
  end.

Definition valid_class (c : Z) : Prop := (0 <= c < BREAK_CLASS_COUNT)%Z.

(** Modelled from the spec: the two-level table layout it describes.
    A uniform entry of [PAGE_INDICES] encodes a valid class in its low
    byte; any other entry is the index of a page of [BREAK_PROP_DATA],
    whose type [[BreakClass; 256]] makes it 256 valid classes. *)
Definition tables_wf : Prop :=
  valid_class Unknown /\
  Forall (fun page_idx =>
    (0 <= page_idx)%Z /\
    (if negb (Z.land page_idx UNIFORM_PAGE =? 0)%Z
     then valid_class (Z.land (Z.land page_idx (Z.lnot UNIFORM_PAGE)) 255)
     else exists page, BREAK_PROP_DATA !! Z.to_nat page_idx = Some page /\
            length page = 256 /\ Forall valid_class page))
    PAGE_INDICES.
End Classifier.

(* ------------------------------------------------------------------ *)
(** ** Break opportunities and the wrapper's types *)

(** [enum BreakOpportunity]. *)
Inductive BreakOpportunity := Mandatory | Allowed.

(** [enum LineBreakErr]. *)
Inductive LineBreakErr :=
| MissingCharacterWidth (c : Z)
| NoLegalLinebreakOpportunity.

(** [Result<T, E>]. *)
Inductive Result (T E : Type) := Ok (v : T) | Err (e : E).
Arguments Ok {T E} v.
Arguments Err {T E} e.

(** [Option::is_some]. *)
Definition option_is_some {A} (o : option A) : bool :=
  match o with Some _ => true | None => false end.

(** [HashMap<char, usize>]. *)
Abbreviation font_map := (gmap Z N).

(** [current_width += w] on [usize] in a release build: wrap-around. *)
Definition usize_add (a b : N) : N := ((a + b) mod 2 ^ 64)%N.

(* ------------------------------------------------------------------ *)
(** ** The break-opportunity scanner ([linebreaks]) and the wrapper *)

Section Scanner.
(** [break_property(c as u32) as u8], taken total: see [tables_wf] and the
    classifier theorem. *)
Variable classify : Z -> Z.
(** [PAIR_TABLE[state][class]]: next state and the two break bits. *)
Variable PAIR_TABLE : Z -> Z -> Z.
(** The sentinels [sot], [eot], [BreakClass::ZeroWidthJoiner as u8], and
    [ALLOWED_BREAK_BIT], [MANDATORY_BREAK_BIT] from [shared.rs]. *)
Variables sot eot ZeroWidthJoiner : Z.
Variables ALLOWED_BREAK_BIT MANDATORY_BREAK_BIT : Z.

(** The closure of [.scan((sot, false), |state, (i, cls)| ...)]:
    from the run state and the current class, the new run state and the
    pair [(is_break, is_mandatory)]. *)
Definition lb_step (state : Z * bool) (cls : Z) : (Z * bool) * (bool * bool) :=
  let val := PAIR_TABLE state.1 cls in
  let is_mandatory := negb (Z.land val MANDATORY_BREAK_BIT =? 0)%Z in
  let is_break :=
    negb (Z.land val ALLOWED_BREAK_BIT =? 0)%Z && (negb state.2 || is_mandatory) in
  ((Z.land val (Z.lnot (Z.lor ALLOWED_BREAK_BIT MANDATORY_BREAK_BIT)),
    (cls =? ZeroWidthJoiner)%Z),
   (is_break, is_mandatory)).

(** [Iterator::scan] with [lb_step]. *)
Fixpoint lb_scan (state : Z * bool) (items : list (nat * Z))
  : list (nat * bool * bool) :=
  match items with
  | [] => []
  | (i, cls) :: rest =>
      let '(state', (is_break, is_mandatory)) := lb_step state cls in
      (i, is_break, is_mandatory) :: lb_scan state' rest
  end.

(** The final [.map(...)]. *)
Definition to_opportunity (x : nat * bool * bool) : nat * option BreakOpportunity :=
  let '(i, is_break, is_mandatory) := x in
  if is_break then (i, Some (if is_mandatory then Mandatory else Allowed))
  else (i, None).

(** The items fed to the automaton: each char's offset and class, then
    the [eot] sentinel at [s.len()]. *)
Definition lb_items (s : list Z) : list (nat * Z) :=
  map (fun '(i, c) => (i, classify c)) (char_indices s) ++ [(str_len s, eot)].

(** [fn linebreaks(s: &str)]. *)
Definition linebreaks (s : list Z) : list (nat * option BreakOpportunity) :=
  map to_opportunity (lb_scan (sot, false) (lb_items s)).

(** Lines 19-22: each char paired with the next item of [breakers];
    [None] when [.expect("linebreak issue in `inner`")] would panic. *)
Fixpoint pair_with_breakers (cs : list Z) (breakers : list (nat * option BreakOpportunity))
  : option (list (Z * option BreakOpportunity)) :=
  match cs with
  | [] => Some []
  | c :: cs' =>
      match breakers with
      | [] => None
      | (_, b) :: breakers' =>
          match pair_with_breakers cs' breakers' with
          | Some l => Some ((c, b) :: l)
          | None => None
          end
      end
  end.

(** Outcome of one pass of the inner [for] loop (lines 31-72). *)
Inductive ScanOutcome :=
| ScanDone                      (** ran off the end or met a null *)
| ScanSplit (break_point : nat) (** overflow with a recorded break *)
| ScanErr (e : LineBreakErr).   (** [?] or [return Err(...)] *)

(** The inner [for] loop; [cursor], [current_width], [break_point] are its
    state. *)
Fixpoint scan (font : font_map) (max_width : N) (cursor : nat)
    (current_width : N) (break_point : option nat)
    (chars : list (Z * option BreakOpportunity)) : ScanOutcome :=
  match chars with
  | [] => ScanDone
  | (c, break_op) :: rest =>
      if (c =? null_char)%Z then ScanDone
      else if (c =? newline)%Z then scan font max_width (S cursor) 0%N break_point rest
      else
        match font !! c with
        | None => ScanErr (MissingCharacterWidth c)
        | Some w =>
            let current_width := usize_add current_width w in
            if (max_width <? current_width)%N then
              match break_point with
              | Some bp => ScanSplit bp
              | None => ScanErr NoLegalLinebreakOpportunity
              end
            else
              let break_point :=
                if option_is_some break_op && negb (cursor =? 0) then Some cursor
                else break_point in
              scan font max_width (S cursor) current_width break_point rest
        end
  end.

(** The outer [loop] (lines 26-79) with an iteration bound [fuel];
    [None] when the bound is exhausted. On a split, [writeln!] appends the
    prefix and a newline and [chars] becomes the suffix. *)
Fixpoint wrap_loop (fuel : nat) (font : font_map) (max_width : N)
    (output : list Z) (chars : list (Z * option BreakOpportunity))
  : option (Result (list Z) LineBreakErr) :=
  match fuel with
  | O => None
  | S fuel' =>
      match scan font max_width 0 0%N None chars with
      | ScanDone => Some (Ok (output ++ map fst chars))
      | ScanErr e => Some (Err e)
      | ScanSplit bp =>
          wrap_loop fuel' font max_width
            (output ++ map fst (take bp chars) ++ [newline]) (drop bp chars)
      end
  end.

(** [pub fn apply_newlines]. [None] means the call does not return a
    value (a panic, or more loop iterations than [length chars + 1]; the
    termination theorem shows neither happens). *)
Definition apply_newlines (string : list Z) (max_width : N) (font : font_map)
  : option (Result (list Z) LineBreakErr) :=
  match pair_with_breakers string (linebreaks string) with
  | None => None
  | Some chars => wrap_loop (S (length chars)) font max_width [] chars
  end.
End Scanner.

(* ------------------------------------------------------------------ *)
(** ** A fragment of the UAX #14 pair table, for concrete examples

    Modelled from the spec: the pair table implements the Unicode
    line-breaking rules (UAX #14). The generated tables are not in [src/]. For examples and
    counterexamples we instantiate the scanner with a small table that
    follows the UAX #14 rules for letters, spaces, line feeds and the
    zero-width joiner: LB2 (no break after sot), LB3 (mandatory break at
    eot), LB5 (mandatory break after LF), LB6 (no break before LF), LB7 (no
    break before a space), LB18 (break allowed after spaces), LB28 (no break
    between letters). The automaton state is the class of the previous
    char. Everything that is not a space, a line feed or U+200D is a
    letter here. *)
Module Uax14Fragment.
Definition AL : Z := 0.
Definition SP : Z := 1.
Definition LF : Z := 2.
Definition ZWJ : Z := 3.
Definition sot : Z := 4.
Definition eot : Z := 5.
Definition ALLOWED_BREAK_BIT : Z := 128.
Definition MANDATORY_BREAK_BIT : Z := 64.

Definition classify (c : Z) : Z :=
  if (c =? 32)%Z then SP
  else if (c =? 10)%Z then LF
  else if (c =? 8205)%Z then ZWJ
  else AL.

Definition PAIR_TABLE (state cls : Z) : Z :=
  let bits :=
    if (cls =? eot)%Z then Z.lor ALLOWED_BREAK_BIT MANDATORY_BREAK_BIT
    else if (state =? sot)%Z then 0%Z
    else if (state =? LF)%Z then Z.lor ALLOWED_BREAK_BIT MANDATORY_BREAK_BIT
    else if (cls =? LF)%Z then 0%Z
    else if (cls =? SP)%Z then 0%Z
    else if (state =? SP)%Z then ALLOWED_BREAK_BIT
    else 0%Z in
  Z.lor cls bits.

Definition frag_linebreaks :=
  linebreaks classify PAIR_TABLE sot eot ZWJ
    ALLOWED_BREAK_BIT MANDATORY_BREAK_BIT.

Definition frag_apply_newlines :=
  apply_newlines classify PAIR_TABLE sot eot ZWJ
    ALLOWED_BREAK_BIT MANDATORY_BREAK_BIT.
End Uax14Fragment.

(** The test suite's [make_font()]: width 1 for the chars [0..=255]. *)
Definition make_font : font_map :=
  list_to_map (map (fun n => (Z.of_nat n, 1%N)) (seq 0 256)).

(* ------------------------------------------------------------------ *)
(** ** Vocabulary for the statements *)

(** The lines of a string: its maximal segments between newlines. *)
Fixpoint lines (l : list Z) : list (list Z) :=
  match l with
  | [] => [[]]
  | c :: r =>
      if (c =? newline)%Z then [] :: lines r
      else match lines r with
           | [] => [[c]]
           | ln :: lns => (c :: ln) :: lns
           end
  end.

(** The accumulated (exact) width of a line; a char without a width in the
    font counts 0. *)
Definition line_width (font : font_map) (line : list Z) : N :=
  fold_right (fun c acc => (default 0%N (font !! c) + acc)%N) 0%N line.

(** The exact total width of a text, newlines not counted. *)
Definition text_width (font : font_map) (s : list Z) : N :=
  fold_right (fun c acc =>
    ((if (c =? newline)%Z then 0%N else default 0%N (font !! c)) + acc)%N) 0%N s.

(** The width accounting of one pass of the inner loop, as the code does
    it: the running width after each char (wrapping [usize] addition),
    reset at newlines, stopping at a null; [None] when a width is missing
    or the running width goes over [max_width]. *)
Fixpoint run_width (font : font_map) (max_width : N) (current_width : N)
    (l : list Z) : option N :=
  match l with
  | [] => Some current_width
  | c :: r =>
      if (c =? null_char)%Z then Some current_width
      else if (c =? newline)%Z then run_width font max_width 0%N r
      else match font !! c with
           | None => None
           | Some w =>
               let cw := usize_add current_width w in
               if (max_width <? cw)%N then None else run_width font max_width cw r
           end
  end.

(** The same accounting with exact (unbounded) sums. *)
Fixpoint run_width_exact (font : font_map) (max_width : N) (current_width : N)
    (l : list Z) : option N :=
  match l with
  | [] => Some current_width
  | c :: r =>
      if (c =? null_char)%Z then Some current_width
      else if (c =? newline)%Z then run_width_exact font max_width 0%N r
      else match font !! c with
           | None => None
           | Some w =>
               let cw := (current_width + w)%N in
               if (max_width <? cw)%N then None else run_width_exact font max_width cw r
           end
  end.

(** The filter that drops newlines, to compare texts up to line breaks. *)
Definition not_newline (c : Z) : bool := negb (c =? newline)%Z.

(** A result with [tail] appended to its [Ok] value. *)
Definition with_tail (tail : list Z) (r : Result (list Z) LineBreakErr)
  : Result (list Z) LineBreakErr :=
  match r with
  | Ok o => Ok (o ++ tail)
  | Err e => Err e
  end.

(** [w] is the chars of [l] in order, with a newline inserted before some
    of the chars whose annotation is a break opportunity, at most one
    before each. *)
Inductive breaks_inserted : list (Z * option BreakOpportunity) -> list Z -> Prop :=
| bi_nil : breaks_inserted [] []
| bi_keep c a l w :
    breaks_inserted l w -> breaks_inserted ((c, a) :: l) (c :: w)
| bi_break c b l w :
    breaks_inserted l w -> breaks_inserted ((c, Some b) :: l) (newline :: c :: w).

(** [w] is what the wrapper may make of the annotated chars [chars]: the
    first char is kept as is, and newlines are inserted only before later
    chars that carry a break opportunity. *)
Definition wrapped_from (chars : list (Z * option BreakOpportunity)) (w : list Z) : Prop :=
  match chars with
  | [] => w = []
  | (c, _) :: rest => exists w', w = c :: w' /\ breaks_inserted rest w'
  end.

(** [val & bit != 0]. *)
Definition has_bit (val bit : Z) : bool := negb (Z.land val bit =? 0)%Z.

(** One transition of the automaton's run state on an item. *)
Definition lb_next (PAIR_TABLE : Z -> Z -> Z)
    (ZeroWidthJoiner ALLOWED_BREAK_BIT MANDATORY_BREAK_BIT : Z)
    (state : Z * bool) (item : nat * Z) : Z * bool :=
  (lb_step PAIR_TABLE ZeroWidthJoiner ALLOWED_BREAK_BIT MANDATORY_BREAK_BIT state item.2).1.

(** The automaton's run state after reading the first [k] items. *)
Definition lb_state_before (PAIR_TABLE : Z -> Z -> Z)
    (ZeroWidthJoiner ALLOWED_BREAK_BIT MANDATORY_BREAK_BIT : Z)
    (state : Z * bool) (items : list (nat * Z)) (k : nat) : Z * bool :=
  fold_left (lb_next PAIR_TABLE ZeroWidthJoiner ALLOWED_BREAK_BIT MANDATORY_BREAK_BIT)
    (take k items) state.

(* ------------------------------------------------------------------ *)
(** * Proofs *)

(** ** Sanity checks against the test suite (with [Uax14Fragment]) *)

Example basic_1 :
  Uax14Fragment.frag_apply_newlines (str "This is a simple newline string.") 35 make_font
  = Some (Ok (str "This is a simple newline string.")).
Proof. vm_compute. reflexivity. Qed.

Example basic_2 :
  Uax14Fragment.frag_apply_newlines
    (str "This is a simple newline string. But then it gets a little longer.") 35 make_font
  = Some (Ok (str "This is a simple newline string. " ++ [newline] ++
              str "But then it gets a little longer.")).
Proof. vm_compute. reflexivity. Qed.

Example basic_3 :
  Uax14Fragment.frag_apply_newlines (str "Supercalifragalisticexpialidocious") 30 make_font
  = Some (Err NoLegalLinebreakOpportunity).
Proof. vm_compute. reflexivity. Qed.

Example basic_4 :
  Uax14Fragment.frag_apply_newlines [8804%Z] 30 make_font
  = Some (Err (MissingCharacterWidth 8804%Z)).
Proof. vm_compute. reflexivity. Qed.

(** ** The scanner *)

Section ScannerFacts.
Variable classify : Z -> Z.
Variable PAIR_TABLE : Z -> Z -> Z.
Variables sot eot ZeroWidthJoiner : Z.
Variables ALLOWED_BREAK_BIT MANDATORY_BREAK_BIT : Z.

Local Abbreviation step := (lb_step PAIR_TABLE ZeroWidthJoiner ALLOWED_BREAK_BIT MANDATORY_BREAK_BIT).
Local Abbreviation next := (lb_next PAIR_TABLE ZeroWidthJoiner ALLOWED_BREAK_BIT MANDATORY_BREAK_BIT).
Local Abbreviation scan_lb := (lb_scan PAIR_TABLE ZeroWidthJoiner ALLOWED_BREAK_BIT MANDATORY_BREAK_BIT).
Local Abbreviation lbs := (linebreaks classify PAIR_TABLE sot eot ZeroWidthJoiner
                         ALLOWED_BREAK_BIT MANDATORY_BREAK_BIT).
Local Abbreviation items := (lb_items classify eot).

Local Arguments lb_step : simpl never.

Lemma lookup_map_list {A B} (f : A -> B) (l : list A) k : map f l !! k = f <$> l !! k.
Proof. revert k; induction l; intros [|k]; simpl; auto. Qed.

Lemma lb_scan_length st its : length (scan_lb st its) = length its.
Proof.
  revert st; induction its as [|[i cls] its IH]; intros st; [done|].
  simpl. destruct (step st cls) as [st' [b m]]. simpl. by rewrite IH.
Qed.

Lemma lb_scan_offsets st its :
  map (fun x => x.1.1) (scan_lb st its) = map fst its.
Proof.
  revert st; induction its as [|[i cls] its IH]; intros st; [done|].
  simpl. destruct (step st cls) as [st' [b m]]. simpl. by rewrite IH.
Qed.

Lemma lb_scan_app st its1 its2 :
  scan_lb st (its1 ++ its2) =
  scan_lb st its1 ++ scan_lb (fold_left next its1 st) its2.
Proof.
  revert st; induction its1 as [|[i cls] its1 IH]; intros st; [done|].
  simpl. unfold lb_next at 2; simpl.
  destruct (step st cls) as [st' [b m]] eqn:E. simpl. rewrite IH. done.
Qed.

Lemma lb_scan_lookup st its k i cls :
  its !! k = Some (i, cls) ->
  scan_lb st its !! k =
  Some (i, (step (fold_left next (take k its) st) cls).2.1,
           (step (fold_left next (take k its) st) cls).2.2).
Proof.
  revert st k; induction its as [|[i0 c0] its IH]; intros st k Hk; [done|].
  cbn [lb_scan]. destruct (step st c0) as [st' [b m]] eqn:E.
  destruct k as [|k].
  - injection Hk as -> ->. cbn [take firstn fold_left lookup list_lookup]. rewrite E. done.
  - simpl in Hk |- *. rewrite (IH st' k Hk).
    assert (Hn : next st (i0, c0) = st') by (unfold lb_next; cbn [snd]; rewrite E; done).
    cbn [take firstn fold_left]. rewrite Hn. done.
Qed.

Lemma char_indices_from_length off s : length (char_indices_from off s) = length s.
Proof. revert off; induction s; intros off; simpl; auto. Qed.

Lemma char_indices_from_app off s t :
  char_indices_from off (s ++ t) =
  char_indices_from off s ++ char_indices_from (off + str_len s) t.
Proof.
  revert off; induction s as [|c s IH]; intros off; simpl.
  - by rewrite Nat.add_0_r.
  - rewrite IH. do 3 f_equal. lia.
Qed.

Lemma to_opportunity_offset x : (to_opportunity x).1 = x.1.1.
Proof. destruct x as [[i [|]] m]; reflexivity. Qed.

Lemma items_length s : length (items s) = S (length s).
Proof.
  unfold lb_items, char_indices. rewrite length_app, length_map.
  rewrite char_indices_from_length. simpl. lia.
Qed.

Lemma items_offsets s :
  map fst (items s) = map fst (char_indices s) ++ [str_len s].
Proof.
  unfold lb_items. rewrite map_app, map_map. f_equal.
  apply map_ext. intros [i c]. done.
Qed.

Lemma linebreaks_length s : length (lbs s) = S (length s).
Proof.
  unfold linebreaks. rewrite length_map, lb_scan_length. apply items_length.
Qed.

Lemma linebreaks_offsets s :
  map fst (lbs s) = map fst (char_indices s) ++ [str_len s].
Proof.
  unfold linebreaks. rewrite map_map.
  rewrite (map_ext _ (fun x => x.1.1)) by apply to_opportunity_offset.
  rewrite lb_scan_offsets. apply items_offsets.
Qed.

Lemma linebreaks_prefix s t :
  take (length s) (lbs (s ++ t)) = take (length s) (lbs s).
Proof.
  unfold linebreaks, lb_items, char_indices.
  rewrite char_indices_from_app, map_app, <- app_assoc, !lb_scan_app, !map_app.
  rewrite !take_app_length'; [done| |];
    rewrite length_map, lb_scan_length, length_map, char_indices_from_length; done.
Qed.

Lemma linebreaks_lookup s k i cls :
  items s !! k = Some (i, cls) ->
  lbs s !! k =
  Some (to_opportunity
    (i, (step (lb_state_before PAIR_TABLE ZeroWidthJoiner ALLOWED_BREAK_BIT
                 MANDATORY_BREAK_BIT (sot, false) (items s) k) cls).2.1,
        (step (lb_state_before PAIR_TABLE ZeroWidthJoiner ALLOWED_BREAK_BIT
                 MANDATORY_BREAK_BIT (sot, false) (items s) k) cls).2.2)).
Proof.
  intros Hk. unfold linebreaks. rewrite lookup_map_list.
  rewrite (lb_scan_lookup _ _ _ _ _ Hk). done.
Qed.

Lemma pair_with_breakers_combine cs bs :
  length cs <= length bs ->
  pair_with_breakers cs bs = Some (combine cs (map snd bs)).
Proof.
  revert bs; induction cs as [|c cs IH]; intros [|[i b] bs] Hl; simpl in *;
    try done; try lia.
  rewrite IH by lia. done.
Qed.

Lemma state_before_S st its k i cls :
  its !! k = Some (i, cls) ->
  lb_state_before PAIR_TABLE ZeroWidthJoiner ALLOWED_BREAK_BIT MANDATORY_BREAK_BIT
    st its (S k) =
  (step (lb_state_before PAIR_TABLE ZeroWidthJoiner ALLOWED_BREAK_BIT
           MANDATORY_BREAK_BIT st its k) cls).1.
Proof.
  intros Hk. unfold lb_state_before. rewrite (take_S_r _ _ _ Hk), fold_left_app.
  done.
Qed.

(** C3 (amended). [linebreaks s] has one pair per char, at the char's byte
    offset, and one more pair at [s.len()]. The annotation of char [k] is
    the verdict the automaton gives when it reads char [k] in the state
    reached after chars [0 .. k-1]: the verdict for the position between
    char [k-1] (or the start of text) and char [k], i.e. immediately
    before char [k]. It depends on chars [0 .. k] only, so it does not see
    the char after [k]; the verdict for the position after the last char
    is carried by the [eot] pair. The wrapper pairs each char with its own
    annotation and never uses the [eot] pair. *)
Theorem linebreaks_one_pair_per_char_break_before (s : list Z) :
  length (lbs s) = S (length s) /\
  map fst (lbs s) = map fst (char_indices s) ++ [str_len s] /\
  (forall k i cls, items s !! k = Some (i, cls) ->
     lbs s !! k =
     Some (to_opportunity
       (i, (step (lb_state_before PAIR_TABLE ZeroWidthJoiner ALLOWED_BREAK_BIT
                    MANDATORY_BREAK_BIT (sot, false) (items s) k) cls).2.1,
           (step (lb_state_before PAIR_TABLE ZeroWidthJoiner ALLOWED_BREAK_BIT
                    MANDATORY_BREAK_BIT (sot, false) (items s) k) cls).2.2))) /\
  (forall t, take (length s) (lbs (s ++ t)) = take (length s) (lbs s)) /\
  pair_with_breakers s (lbs s) = Some (combine s (map snd (lbs s))).
Proof.
  split; [apply linebreaks_length|].
  split; [apply linebreaks_offsets|].
  split; [intros k i cls Hk; by apply linebreaks_lookup|].
  split; [apply linebreaks_prefix|].
  apply pair_with_breakers_combine. rewrite linebreaks_length. lia.
Qed.

(** C4. At the step of the automaton that reads item [k] (class [cls],
    run state [st]), with [val = PAIR_TABLE[st.0][cls]]: a break that is
    mandatory is emitted as [Mandatory] whatever the ZWJ flag; an allowed,
    non-mandatory break is emitted as [None] when the flag is set and as
    [Allowed] otherwise; no allowed bit gives [None]. The flag is false
    at the first item, and at item [k+1] it is exactly [cls == ZWJ]. *)
Theorem linebreaks_zwj_suppression (s : list Z) (k i : nat) (cls : Z) :
  items s !! k = Some (i, cls) ->
  let st := lb_state_before PAIR_TABLE ZeroWidthJoiner ALLOWED_BREAK_BIT
              MANDATORY_BREAK_BIT (sot, false) (items s) k in
  let val := PAIR_TABLE st.1 cls in
  (has_bit val ALLOWED_BREAK_BIT = true -> has_bit val MANDATORY_BREAK_BIT = true ->
     lbs s !! k = Some (i, Some Mandatory)) /\
  (has_bit val ALLOWED_BREAK_BIT = true -> has_bit val MANDATORY_BREAK_BIT = false ->
     st.2 = true -> lbs s !! k = Some (i, None)) /\
  (has_bit val ALLOWED_BREAK_BIT = true -> has_bit val MANDATORY_BREAK_BIT = false ->
     st.2 = false -> lbs s !! k = Some (i, Some Allowed)) /\
  (has_bit val ALLOWED_BREAK_BIT = false -> lbs s !! k = Some (i, None)) /\
  (k = 0 -> st.2 = false) /\
  (lb_state_before PAIR_TABLE ZeroWidthJoiner ALLOWED_BREAK_BIT MANDATORY_BREAK_BIT
     (sot, false) (items s) (S k)).2 = (cls =? ZeroWidthJoiner)%Z.
Proof.
  intros Hk st val. pose proof (linebreaks_lookup s k i cls Hk) as Hl.
  fold st in Hl. unfold lb_step in Hl. cbn [fst snd] in Hl. fold val in Hl.
  unfold has_bit. repeat split.
  - intros Ha Hm. rewrite Hl, Ha, Hm. destruct (negb st.2); done.
  - intros Ha Hm Hf. rewrite Hl, Ha, Hm, Hf. done.
  - intros Ha Hm Hf. rewrite Hl, Ha, Hm, Hf. done.
  - intros Ha. rewrite Hl, Ha. done.
  - intros ->. done.
  - rewrite (state_before_S _ _ _ _ _ Hk). done.
Qed.
End ScannerFacts.

(** ** The wrapper: one pass of the inner loop *)

Section WrapperFacts.

Lemma run_width_app font mw a l1 l2 :
  ~ In null_char l1 ->
  run_width font mw a (l1 ++ l2) = run_width font mw a l1 ≫= fun b => run_width font mw b l2.
Proof.
  revert a; induction l1 as [|c l1 IH]; intros a Hn; [done|].
  simpl in Hn |- *. destruct (Z.eqb_spec c null_char) as [->|Hc0]; [tauto|].
  destruct (c =? newline)%Z; [apply IH; tauto|].
  destruct (font !! c); [|done].
  destruct (mw <? usize_add a n)%N; [done|]. apply IH; tauto.
Qed.

Lemma run_width_prefix font mw a l1 l2 :
  is_Some (run_width font mw a (l1 ++ l2)) -> is_Some (run_width font mw a l1).
Proof.
  revert a; induction l1 as [|c l1 IH]; intros a H; [by eexists|].
  simpl in H |- *. destruct (c =? null_char)%Z; [by eexists|].
  destruct (c =? newline)%Z; [by apply IH|].
  destruct (font !! c); [|done].
  destruct (mw <? usize_add a n)%N; [done|]. by apply IH.
Qed.

Lemma not_in_take {A} (x : A) n l : ~ In x l -> ~ In x (take n l).
Proof.
  intros H Hin. apply H. rewrite <- (take_drop n l). apply in_or_app. by left.
Qed.

Lemma scan_done_iff font mw l : forall cursor cw bp,
  scan font mw cursor cw bp l = ScanDone <->
  is_Some (run_width font mw cw (map fst l)).
Proof.
  induction l as [|[c a] l IH]; intros cursor cw bp; simpl.
  - split; [by eexists|done].
  - destruct (c =? null_char)%Z; [split; [by eexists|done]|].
    destruct (c =? newline)%Z; [apply IH|].
    destruct (font !! c) as [w|]; [|split; [done|intros [? ?]; done]].
    destruct (mw <? usize_add cw w)%N.
    + destruct bp; split; try done; intros [? ?]; done.
    + apply IH.
Qed.

Lemma scan_split_spec font mw l : forall pre cw bp p,
  run_width font mw 0 pre = Some cw ->
  ~ In null_char pre ->
  (forall q, bp = Some q -> 1 <= q < length pre) ->
  scan font mw (length pre) cw bp l = ScanSplit p ->
  1 <= p < length pre + length l /\
  is_Some (run_width font mw 0 (take p (pre ++ map fst l))) /\
  ~ In null_char (take p (pre ++ map fst l)).
Proof.
  induction l as [|[c a] l IH]; intros pre cw bp p Hrun Hnul Hbp Hscan;
    simpl in Hscan; [done|].
  destruct (Z.eqb_spec c null_char) as [Hc0|Hc0]; [done|].
  destruct (Z.eqb_spec c newline) as [Hnl|Hnl].
  - assert (Hrun' : run_width font mw 0 (pre ++ [c]) = Some 0%N).
    { rewrite run_width_app by done. rewrite Hrun. simpl.
      rewrite Hnl. done. }
    assert (Hnul' : ~ In null_char (pre ++ [c])).
    { intros Hin. apply in_app_or in Hin as [Hin|[Hin|[]]]; [done|]. by subst. }
    replace (S (length pre)) with (length (pre ++ [c])) in Hscan
      by (rewrite length_app; simpl; lia).
    edestruct (IH _ _ bp p Hrun' Hnul') as (H1 & H2 & H3);
      [intros q Hq; specialize (Hbp q Hq); rewrite length_app; simpl; lia|exact Hscan|].
    rewrite length_app in H1; simpl in H1.
    rewrite <- app_assoc in H2, H3. simpl. split; [lia|done].
  - destruct (font !! c) as [w|] eqn:Hw; [|done].
    destruct (N.ltb_spec mw (usize_add cw w)) as [Hover|Hfit].
    + destruct bp as [q|]; [|done]. injection Hscan as <-.
      specialize (Hbp q eq_refl).
      rewrite take_app_le by lia.
      split; [simpl; lia|]. split.
      * apply (run_width_prefix _ _ _ _ (drop q pre)). rewrite take_drop, Hrun.
        by eexists.
      * by apply not_in_take.
    + assert (Hrun' : run_width font mw 0 (pre ++ [c]) = Some (usize_add cw w)).
      { rewrite run_width_app by done. rewrite Hrun. simpl.
        destruct (Z.eqb_spec c null_char); [done|].
        destruct (Z.eqb_spec c newline); [done|]. rewrite Hw.
        destruct (N.ltb_spec mw (usize_add cw w)); [lia|done]. }
      assert (Hnul' : ~ In null_char (pre ++ [c])).
      { intros Hin. apply in_app_or in Hin as [Hin|[Hin|[]]]; [done|]. by subst. }
      replace (S (length pre)) with (length (pre ++ [c])) in Hscan
        by (rewrite length_app; simpl; lia).
      edestruct (IH _ _ (if option_is_some a && negb (length pre =? 0)
                           then Some (length pre) else bp) p Hrun' Hnul')
        as (H1 & H2 & H3); [|exact Hscan|].
      { intros q Hq. rewrite length_app; simpl.
        destruct (option_is_some a && negb (length pre =? 0)) eqn:Hrec.
        - injection Hq as <-. apply andb_true_iff in Hrec as [_ Hrec].
          apply negb_true_iff, Nat.eqb_neq in Hrec. lia.
        - specialize (Hbp q Hq). lia. }
      rewrite length_app in H1; simpl in H1.
      rewrite <- app_assoc in H2, H3. simpl. split; [lia|done].
Qed.

Lemma map_fst_combine {A B} (l : list A) (l' : list B) :
  length l <= length l' -> map fst (combine l l') = l.
Proof.
  revert l'; induction l as [|x l IH]; intros [|y l'] H; simpl in *; try lia; try done.
  rewrite IH by lia. done.
Qed.

Lemma map_take_list {A B} (f : A -> B) n l : map f (take n l) = take n (map f l).
Proof. revert n; induction l; intros [|n]; simpl; f_equal; auto. Qed.

Lemma map_drop_list {A B} (f : A -> B) n l : map f (drop n l) = drop n (map f l).
Proof. revert n; induction l; intros [|n]; simpl; auto. Qed.

Lemma scan_split_top font mw chars p :
  scan font mw 0 0%N None chars = ScanSplit p ->
  1 <= p < length chars /\
  is_Some (run_width font mw 0 (take p (map fst chars))) /\
  ~ In null_char (take p (map fst chars)).
Proof.
  intros H. apply (scan_split_spec font mw chars [] 0%N None p) in H;
    [simpl in H; exact H|done|intros []|intros q Hq; discriminate].
Qed.

Lemma wrap_loop_returns fuel font mw output chars :
  length chars < fuel ->
  exists r, wrap_loop fuel font mw output chars = Some r.
Proof.
  revert output chars; induction fuel as [|fuel IH]; intros output chars Hf; [lia|].
  simpl. destruct (scan font mw 0 0%N None chars) as [|p|e] eqn:Hs; eauto.
  apply IH. apply scan_split_top in Hs as (Hp & _). rewrite length_drop. lia.
Qed.

Lemma wrap_loop_ok fuel font mw output chars w :
  wrap_loop fuel font mw output chars = Some (Ok w) ->
  ~ In null_char output ->
  run_width font mw 0 output = Some 0%N ->
  is_Some (run_width font mw 0 w) /\
  List.filter not_newline w = List.filter not_newline (output ++ map fst chars).
Proof.
  revert output chars; induction fuel as [|fuel IH]; intros output chars Hw Hn Hr;
    [done|].
  simpl in Hw. destruct (scan font mw 0 0%N None chars) as [|p|e] eqn:Hs.
  - injection Hw as <-. split; [|done].
    rewrite run_width_app, Hr by done. simpl. by apply (scan_done_iff _ _ _ 0 0%N None).
  - apply scan_split_top in Hs as (Hp & Hrp & Hnp).
    rewrite <- map_take_list in Hrp, Hnp.
    assert (Hn' : ~ In null_char (output ++ map fst (take p chars) ++ [newline])).
    { intros Hin. repeat (apply in_app_or in Hin as [Hin|Hin]); try done.
      destruct Hin as [Hin|[]]. discriminate. }
    assert (Hr' : run_width font mw 0 (output ++ map fst (take p chars) ++ [newline]) = Some 0%N).
    { rewrite run_width_app, Hr by done. simpl.
      rewrite run_width_app by done. destruct Hrp as [b Hb]. rewrite Hb. done. }
    destruct (IH _ _ Hw Hn' Hr') as [H1 H2]. split; [done|].
    rewrite H2, <- !app_assoc, !List.filter_app. f_equal.
    transitivity (List.filter not_newline (map fst (take p chars ++ drop p chars)));
      [|by rewrite take_drop].
    rewrite map_app, List.filter_app. done.
  - done.
Qed.
Lemma scan_missing font mw l : forall cursor cw bp c,
  scan font mw cursor cw bp l = ScanErr (MissingCharacterWidth c) ->
  In c (map fst l) /\ c <> newline /\ font !! c = None.
Proof.
  induction l as [|[d a] l IH]; intros cursor cw bp c H; simpl in H; [done|].
  destruct (d =? null_char)%Z; [done|].
  destruct (Z.eqb_spec d newline) as [Hd|Hd].
  - apply IH in H as (? & ? & ?). simpl. tauto.
  - destruct (font !! d) as [w|] eqn:Hw.
    + destruct (mw <? usize_add cw w)%N; [destruct bp; done|].
      apply IH in H as (? & ? & ?). simpl. tauto.
    + injection H as <-. simpl. tauto.
Qed.

Lemma wrap_loop_missing fuel font mw output chars c :
  wrap_loop fuel font mw output chars = Some (Err (MissingCharacterWidth c)) ->
  In c (map fst chars) /\ c <> newline /\ font !! c = None.
Proof.
  revert output chars; induction fuel as [|fuel IH]; intros output chars H; [done|].
  simpl in H. destruct (scan font mw 0 0%N None chars) as [|p|e] eqn:Hs; [done| |].
  - apply IH in H as (Hin & ? & ?). split; [|done].
    rewrite map_drop_list in Hin. rewrite <- (take_drop p (map fst chars)).
    apply in_or_app. by right.
  - injection H as ->. by apply scan_missing in Hs.
Qed.

End WrapperFacts.

(** ** The wrapper: widths of lines *)

Section LineFacts.
Variable font : font_map.
Variable mw : N.

Lemma lines_cons_ne l : exists ln lns, lines l = ln :: lns.
Proof.
  induction l as [|c l IH]; simpl; [eauto|].
  destruct (c =? newline)%Z; [eauto|]. destruct IH as (ln & lns & ->). eauto.
Qed.

Lemma usize_add_le a b : (usize_add a b <= a + b)%N.
Proof. unfold usize_add. apply N.Div0.mod_le. Qed.

Lemma usize_add_small a b : (a + b < 2 ^ 64)%N -> usize_add a b = (a + b)%N.
Proof. intros H. unfold usize_add. apply N.mod_small. done. Qed.

(** Lines that fit give a pass of the inner loop that does not stop. *)
Lemma run_width_of_fitting_lines l : forall cw a,
  (cw <= a)%N ->
  ~ In null_char l ->
  (forall c, In c l -> c <> newline -> is_Some (font !! c)) ->
  match lines l with
  | ln :: lns => (a + line_width font ln <= mw)%N /\
                 Forall (fun ln => (line_width font ln <= mw)%N) lns
  | [] => True
  end ->
  is_Some (run_width font mw cw l).
Proof.
  induction l as [|c l IH]; intros cw a Hle Hn Hcov Hfit; simpl; [by eexists|].
  destruct (Z.eqb_spec c null_char) as [->|Hc0]; [simpl in Hn; tauto|].
  simpl in Hfit. destruct (Z.eqb_spec c newline) as [Hnl|Hnl].
  - destruct (lines_cons_ne l) as (ln & lns & Hl). rewrite Hl in Hfit.
    destruct Hfit as [_ Hf]. inversion Hf as [|? ? Hln Hlns]; subst.
    apply (IH 0%N 0%N); [lia|simpl in Hn; tauto|intros; apply Hcov; simpl; tauto|].
    rewrite Hl. split; [lia|done].
  - destruct (Hcov c (or_introl eq_refl) Hnl) as [w Hw]. rewrite Hw.
    destruct (lines_cons_ne l) as (ln & lns & Hl). rewrite Hl in Hfit, IH.
    destruct Hfit as [Ha Hf]. simpl in Ha. rewrite Hw in Ha. simpl in Ha.
    pose proof (usize_add_le cw w).
    destruct (N.ltb_spec mw (usize_add cw w)); [lia|].
    apply (IH _ (a + w)%N); [lia|simpl in Hn; tauto|intros; apply Hcov; simpl; tauto|].
    split; [lia|done].
Qed.

(** A pass that does not stop, with no usize overflow, gives lines that
    fit. *)
Lemma fitting_lines_of_run_width l : forall cw,
  (cw <= mw)%N ->
  ~ In null_char l ->
  (cw + text_width font l < 2 ^ 64)%N ->
  is_Some (run_width font mw cw l) ->
  match lines l with
  | ln :: lns => (cw + line_width font ln <= mw)%N /\
                 Forall (fun ln => (line_width font ln <= mw)%N) lns
  | [] => True
  end.
Proof.
  induction l as [|c l IH]; intros cw Hle Hn Hov Hrun; simpl; [split; [lia|done]|].
  destruct (Z.eqb_spec c null_char) as [->|Hc0]; [simpl in Hn; tauto|].
  simpl in Hrun, Hov. rewrite (proj2 (Z.eqb_neq _ _) Hc0) in Hrun.
  destruct (Z.eqb_spec c newline) as [Hnl|Hnl].
  - destruct (lines_cons_ne l) as (ln & lns & Hl).
    specialize (IH 0%N ltac:(lia) ltac:(simpl in Hn; tauto) ltac:(lia) Hrun).
    rewrite Hl in IH. simpl. rewrite Hl. split; [lia|]. destruct IH. constructor; [lia|done].
  - destruct (font !! c) as [w|] eqn:Hw; [|by destruct Hrun].
    simpl in Hov. rewrite usize_add_small in Hrun by lia.
    destruct (N.ltb_spec mw (cw + w)); [by destruct Hrun|].
    destruct (lines_cons_ne l) as (ln & lns & Hl).
    specialize (IH (cw + w)%N ltac:(lia) ltac:(simpl in Hn; tauto) ltac:(lia) Hrun).
    rewrite Hl in IH |- *. simpl. rewrite Hw. simpl. destruct IH. split; [lia|done].
Qed.

Lemma text_width_filter l :
  text_width font l = text_width font (List.filter not_newline l).
Proof.
  induction l as [|c l IH]; [done|]. unfold text_width in *.
  cbn [List.filter fold_right]. unfold not_newline at 1.
  destruct (c =? newline)%Z eqn:E; cbn [negb fold_right]; rewrite IH, ?E;
    [apply N.add_0_l|done].
Qed.

Lemma in_filter_not_newline c l :
  c <> newline -> In c l <-> In c (List.filter not_newline l).
Proof.
  intros Hc. rewrite filter_In. unfold not_newline.
  rewrite (proj2 (Z.eqb_neq _ _) Hc). tauto.
Qed.

Lemma in_lines c l : In c l -> c <> newline -> exists ln, In ln (lines l) /\ In c ln.
Proof.
  induction l as [|d l IH]; intros Hin Hc; [done|]. simpl.
  destruct (Z.eqb_spec d newline) as [Hd|Hd].
  - destruct Hin as [->|Hin]; [done|]. destruct (IH Hin Hc) as (ln & ? & ?).
    exists ln. simpl. tauto.
  - destruct (lines_cons_ne l) as (ln & lns & Hl). rewrite Hl in IH |- *.
    destruct Hin as [->|Hin].
    + exists (c :: ln). simpl. tauto.
    + destruct (IH Hin Hc) as (ln' & [<-|Hln'] & Hc').
      * exists (d :: ln). simpl. tauto.
      * exists ln'. simpl. tauto.
Qed.

Lemma line_width_ge c w ln :
  In c ln -> font !! c = Some w -> (w <= line_width font ln)%N.
Proof.
  induction ln as [|d ln IH]; intros Hin Hw; [done|]. simpl.
  destruct Hin as [->|Hin]; [rewrite Hw; simpl; lia|]. specialize (IH Hin Hw). lia.
Qed.
End LineFacts.

(** ** Claims about [apply_newlines] *)

Section WrapperClaims.
Variable classify : Z -> Z.
Variable PAIR_TABLE : Z -> Z -> Z.
Variables sot eot ZeroWidthJoiner : Z.
Variables ALLOWED_BREAK_BIT MANDATORY_BREAK_BIT : Z.

Local Abbreviation lbs := (linebreaks classify PAIR_TABLE sot eot ZeroWidthJoiner
                         ALLOWED_BREAK_BIT MANDATORY_BREAK_BIT).
Local Abbreviation wrap := (apply_newlines classify PAIR_TABLE sot eot ZeroWidthJoiner
                         ALLOWED_BREAK_BIT MANDATORY_BREAK_BIT).

Lemma apply_newlines_chars s :
  pair_with_breakers s (lbs s) = Some (combine s (map snd (lbs s))) /\
  map fst (combine s (map snd (lbs s))) = s.
Proof.
  split.
  - apply pair_with_breakers_combine. rewrite linebreaks_length. lia.
  - apply map_fst_combine. rewrite length_map, linebreaks_length. lia.
Qed.

Lemma apply_newlines_unfold s mw font :
  wrap s mw font =
  wrap_loop (S (length s)) font mw [] (combine s (map snd (lbs s))).
Proof.
  unfold apply_newlines.
  destruct (apply_newlines_chars s) as [-> Hf].
  rewrite length_combine, length_map, linebreaks_length. f_equal. lia.
Qed.

Lemma apply_newlines_ok s mw font w :
  wrap s mw font = Some (Ok w) ->
  is_Some (run_width font mw 0 w) /\
  List.filter not_newline w = List.filter not_newline s.
Proof.
  rewrite apply_newlines_unfold. intros H.
  apply wrap_loop_ok in H; [|intros []|reflexivity]. destruct H as [H1 H2].
  split; [done|]. rewrite H2. simpl. f_equal.
  apply map_fst_combine. rewrite length_map, linebreaks_length. lia.
Qed.

(** A wrapped pass over a string whose running width never goes over. *)
Lemma apply_newlines_of_run_width s mw font :
  is_Some (run_width font mw 0 s) -> wrap s mw font = Some (Ok s).
Proof.
  intros H. rewrite apply_newlines_unfold. simpl.
  assert (Hf : map fst (combine s (map snd (lbs s))) = s).
  { apply map_fst_combine. rewrite length_map, linebreaks_length. lia. }
  rewrite <- Hf in H. apply (scan_done_iff _ _ _ 0 0%N None) in H.
  rewrite H, Hf. done.
Qed.

Lemma apply_newlines_returns s mw font : exists r, wrap s mw font = Some r.
Proof.
  rewrite apply_newlines_unfold. apply wrap_loop_returns.
  rewrite length_combine, length_map, linebreaks_length. lia.
Qed.

(** C9. Every split of the outer loop is at a position [p] with
    [1 <= p < chars.len()], so the working sequence gets strictly
    shorter; hence [apply_newlines] always returns (no panic, and the
    loop ends within [chars.len() + 1] passes). *)
Theorem apply_newlines_terminates :
  (forall font mw chars p,
     scan font mw 0 0%N None chars = ScanSplit p ->
     1 <= p /\ length (drop p chars) < length chars) /\
  (forall s mw font, exists r, wrap s mw font = Some r).
Proof.
  split.
  - intros font mw chars p H. apply scan_split_top in H as (H & _).
    rewrite length_drop. lia.
  - apply apply_newlines_returns.
Qed.

(** C7. Re-wrapping a successful result with the same budget and font
    returns it unchanged. *)
Theorem apply_newlines_idempotent (s : list Z) (mw : N) (font : font_map) (w : list Z) :
  apply_newlines classify PAIR_TABLE sot eot ZeroWidthJoiner
    ALLOWED_BREAK_BIT MANDATORY_BREAK_BIT s mw font = Some (Ok w) ->
  apply_newlines classify PAIR_TABLE sot eot ZeroWidthJoiner
    ALLOWED_BREAK_BIT MANDATORY_BREAK_BIT w mw font = Some (Ok w).
Proof.
  intros H. apply apply_newlines_ok in H as [H _].
  by apply apply_newlines_of_run_width.
Qed.

(** C6. A null-free string whose non-newline chars all have a width and
    whose lines all fit in [max_width] is returned unchanged. *)
Theorem apply_newlines_unchanged_when_fits (s : list Z) (mw : N) (font : font_map) :
  ~ In null_char s ->
  (forall c, In c s -> c <> newline -> is_Some (font !! c)) ->
  Forall (fun ln => (line_width font ln <= mw)%N) (lines s) ->
  wrap s mw font = Some (Ok s).
Proof.
  intros Hn Hcov Hfit. apply apply_newlines_of_run_width.
  apply (run_width_of_fitting_lines font mw s 0%N 0%N); [lia|done|done|].
  destruct (lines_cons_ne s) as (ln & lns & Hl). rewrite Hl in Hfit |- *.
  inversion Hfit; subst. split; [lia|done].
Qed.

(** C1 (amended). For a text without null chars whose total width fits in
    a [usize]: every line of a successful result has width at most
    [max_width]; and when the font gives every non-newline char a width
    and some char is wider than [max_width], the result is
    [Err(NoLegalLinebreakOpportunity)]. *)
Theorem apply_newlines_lines_fit (s : list Z) (mw : N) (font : font_map) :
  ~ In null_char s ->
  (text_width font s < 2 ^ 64)%N ->
  (forall w, wrap s mw font = Some (Ok w) ->
     Forall (fun ln => (line_width font ln <= mw)%N) (lines w)) /\
  ((forall c, In c s -> c <> newline -> is_Some (font !! c)) ->
   (exists c wc, In c s /\ c <> newline /\ font !! c = Some wc /\ (mw < wc)%N) ->
   wrap s mw font = Some (Err NoLegalLinebreakOpportunity)).
Proof.
  intros Hn Hov.
  assert (Hok : forall w, wrap s mw font = Some (Ok w) ->
            Forall (fun ln => (line_width font ln <= mw)%N) (lines w)).
  { intros w Hw. apply apply_newlines_ok in Hw as [Hrun Hfl].
    assert (Hnw : ~ In null_char w).
    { assert (Hnn : null_char <> newline) by (unfold null_char, newline; lia).
      intros Hin. apply Hn. rewrite (in_filter_not_newline _ s Hnn), <- Hfl.
      by rewrite <- (in_filter_not_newline _ w Hnn). }
    assert (Htw : text_width font w = text_width font s).
    { by rewrite text_width_filter, Hfl, <- text_width_filter. }
    pose proof (fitting_lines_of_run_width font mw w 0%N ltac:(lia) Hnw
                  ltac:(lia) Hrun) as Hf.
    destruct (lines w) as [|ln lns]; [done|]. destruct Hf. constructor; [lia|done]. }
  split; [exact Hok|].
  intros Hcov (c & wc & Hc & Hcnl & Hwc & Hbig).
  destruct (apply_newlines_returns s mw font) as [[w|e] Hr].
  - exfalso. pose proof (Hok w Hr) as Hf. apply apply_newlines_ok in Hr as [_ Hfl].
    assert (Hcw : In c w).
    { rewrite (in_filter_not_newline _ w Hcnl), Hfl.
      by rewrite <- (in_filter_not_newline _ s Hcnl). }
    destruct (in_lines c w Hcw Hcnl) as (ln & Hln & Hcln).
    rewrite List.Forall_forall in Hf. specialize (Hf ln Hln).
    pose proof (line_width_ge font c wc ln Hcln Hwc). lia.
  - rewrite Hr. destruct e as [c'|]; [|done]. exfalso.
    rewrite apply_newlines_unfold in Hr. apply wrap_loop_missing in Hr as (Hin & Hnl & Hnone).
    rewrite map_fst_combine in Hin by (rewrite length_map, linebreaks_length; lia).
    destruct (Hcov c' Hin Hnl) as [? Hsome]. congruence.
Qed.
End WrapperClaims.

(** ** Newlines and nulls inside a pass *)

Section NullFacts.
Lemma scan_font_ext font font' mw l :
  (forall c, In c (map fst l) -> c <> newline -> font !! c = font' !! c) ->
  forall cursor cw bp, scan font mw cursor cw bp l = scan font' mw cursor cw bp l.
Proof.
  induction l as [|[c a] l IH]; intros H cursor cw bp; [done|]. simpl.
  assert (H' : forall d, In d (map fst l) -> d <> newline -> font !! d = font' !! d)
    by (intros; apply H; simpl; auto).
  destruct (c =? null_char)%Z; [done|].
  destruct (Z.eqb_spec c newline) as [Hc|Hc]; [by apply IH|].
  rewrite (H c (or_introl eq_refl) Hc). destruct (font' !! c); [|done].
  destruct (_ <? _)%N; [done|]. by apply IH.
Qed.

Lemma scan_null_split_lt font mw P a Q : forall cursor cw bp p,
  ~ In null_char (map fst P) ->
  scan font mw cursor cw bp (P ++ (null_char, a) :: Q) = ScanSplit p ->
  bp = Some p \/ p < cursor + length P.
Proof.
  induction P as [|[c b] P IH]; intros cursor cw bp p Hn H; [by cbn in H|].
  simpl in Hn, H |- *. destruct (Z.eqb_spec c null_char) as [Hc0|Hc0]; [tauto|].
  destruct (c =? newline)%Z.
  - apply IH in H as [H|H]; [by left|right; lia|tauto].
  - destruct (font !! c) as [w|]; [|done].
    destruct (_ <? _)%N; [destruct bp; [injection H as ->; by left|done]|].
    apply IH in H; [|tauto].
    destruct (option_is_some b && negb (cursor =? 0));
      destruct H as [H|H]; try (right; lia).
    + injection H as ->. right; lia.
    + by left.
Qed.

Lemma scan_null_ext font font' mw P a a' Q Q' :
  ~ In null_char (map fst P) ->
  (forall c, In c (map fst P) -> font !! c = font' !! c) ->
  forall cursor cw bp,
  scan font mw cursor cw bp (P ++ (null_char, a) :: Q) =
  scan font' mw cursor cw bp (P ++ (null_char, a') :: Q').
Proof.
  induction P as [|[c b] P IH]; intros Hn Hf cursor cw bp; [done|].
  simpl in Hn |- *.
  assert (Hf' : forall d, In d (map fst P) -> font !! d = font' !! d)
    by (intros; apply Hf; simpl; auto).
  destruct (c =? null_char)%Z; [done|].
  destruct (c =? newline)%Z; [apply IH; tauto|].
  rewrite (Hf c (or_introl eq_refl)). destruct (font' !! c); [|done].
  destruct (_ <? _)%N; [done|]. apply IH; tauto.
Qed.

Lemma in_drop_in {A} (x : A) n l : In x (drop n l) -> In x l.
Proof. intros H. rewrite <- (take_drop n l). apply in_or_app. by right. Qed.

Lemma wrap_loop_null fuel font font' mw : forall output P a a' Q Q',
  ~ In null_char (map fst P) ->
  (forall c, In c (map fst P) -> font !! c = font' !! c) ->
  exists X,
    wrap_loop fuel font mw output (P ++ (null_char, a) :: Q) =
      option_map (with_tail (null_char :: map fst Q)) X /\
    wrap_loop fuel font' mw output (P ++ (null_char, a') :: Q') =
      option_map (with_tail (null_char :: map fst Q')) X.
Proof.
  induction fuel as [|fuel IH]; intros output P a a' Q Q' Hn Hf; [by exists None|].
  cbn [wrap_loop]. rewrite (scan_null_ext font font' mw P a a' Q Q' Hn Hf).
  destruct (scan font' mw 0 0%N None (P ++ (null_char, a') :: Q')) as [|p|e] eqn:Hs.
  - exists (Some (Ok (output ++ map fst P))). cbn [option_map with_tail].
    rewrite !map_app, <- !app_assoc. done.
  - apply scan_null_split_lt in Hs as [Hs|Hs]; [done| |done]. simpl in Hs.
    rewrite !take_app_le, !drop_app_le by lia.
    apply IH.
    + intros Hin. apply Hn. rewrite map_drop_list in Hin. by apply in_drop_in in Hin.
    + intros c Hin. apply Hf. rewrite map_drop_list in Hin. by apply in_drop_in in Hin.
  - by exists (Some (Err e)).
Qed.

Lemma wrap_loop_fuel_mono fuel font mw : forall fuel' output chars r,
  fuel <= fuel' ->
  wrap_loop fuel font mw output chars = Some r ->
  wrap_loop fuel' font mw output chars = Some r.
Proof.
  induction fuel as [|fuel IH]; intros fuel' output chars r Hle H; [done|].
  destruct fuel' as [|fuel']; [lia|]. cbn [wrap_loop] in H |- *.
  destruct (scan font mw 0 0%N None chars); [done| |done].
  apply IH; [lia|done].
Qed.

Lemma combine_app_l {A B} (xs ys : list A) (zs : list B) :
  combine (xs ++ ys) zs =
  combine xs (take (length xs) zs) ++ combine ys (drop (length xs) zs).
Proof.
  revert zs; induction xs as [|x xs IH]; intros [|z zs]; simpl; try done.
  - by destruct ys.
  - by rewrite IH.
Qed.
End NullFacts.

Section NullClaims.
Variable classify : Z -> Z.
Variable PAIR_TABLE : Z -> Z -> Z.
Variables sot eot ZeroWidthJoiner : Z.
Variables ALLOWED_BREAK_BIT MANDATORY_BREAK_BIT : Z.

Local Abbreviation lbs := (linebreaks classify PAIR_TABLE sot eot ZeroWidthJoiner
                         ALLOWED_BREAK_BIT MANDATORY_BREAK_BIT).
Local Abbreviation wrap := (apply_newlines classify PAIR_TABLE sot eot ZeroWidthJoiner
                         ALLOWED_BREAK_BIT MANDATORY_BREAK_BIT).

Lemma chars_null_split pre post :
  exists a Q,
    combine (pre ++ null_char :: post) (map snd (lbs (pre ++ null_char :: post))) =
    combine pre (map snd (take (length pre) (lbs pre))) ++ (null_char, a) :: Q /\
    map fst Q = post.
Proof.
  rewrite combine_app_l, <- map_take_list, linebreaks_prefix.
  pose proof (linebreaks_length classify PAIR_TABLE sot eot ZeroWidthJoiner
                ALLOWED_BREAK_BIT MANDATORY_BREAK_BIT (pre ++ null_char :: post)) as Hl.
  rewrite length_app in Hl. simpl in Hl.
  destruct (drop (length pre) (map snd (lbs (pre ++ null_char :: post))))
    as [|a rest] eqn:Hd.
  - apply (f_equal length) in Hd. rewrite length_drop, length_map in Hd. simpl in Hd. lia.
  - exists a, (combine post rest). split; [done|]. apply map_fst_combine.
    apply (f_equal length) in Hd. rewrite length_drop, length_map in Hd. simpl in Hd. lia.
Qed.

(** C10. Past a null char nothing is measured or split: for a prefix
    [pre] without nulls, the result of [apply_newlines] on
    [pre ++ '\0' :: post] is one outcome [r] of [pre] alone, with
    ['\0' :: post] appended verbatim to its [Ok] value. The same [r] is
    obtained for any other tail [post'] and any font [font'] that agrees
    with [font] on the chars of [pre], so the tail can neither cause an
    error ([MissingCharacterWidth] included) nor be split, whatever its
    width. *)
Theorem apply_newlines_null_tail (pre post post' : list Z) (mw : N)
    (font font' : font_map) :
  ~ In null_char pre ->
  (forall c, In c pre -> font !! c = font' !! c) ->
  exists r,
    wrap (pre ++ null_char :: post) mw font = Some (with_tail (null_char :: post) r) /\
    wrap (pre ++ null_char :: post') mw font' = Some (with_tail (null_char :: post') r).
Proof.
  intros Hn Hf. rewrite !apply_newlines_unfold.
  destruct (chars_null_split pre post) as (a & Q & Hc & HQ).
  destruct (chars_null_split pre post') as (a' & Q' & Hc' & HQ').
  set (P := combine pre (map snd (take (length pre) (lbs pre)))) in *.
  assert (HP : map fst P = pre).
  { apply map_fst_combine. rewrite length_map, length_take, linebreaks_length. lia. }
  rewrite <- HP in Hn, Hf.
  set (f1 := S (length (pre ++ null_char :: post))).
  set (f2 := S (length (pre ++ null_char :: post'))).
  destruct (wrap_loop_returns f1 font mw [] (combine (pre ++ null_char :: post)
              (map snd (lbs (pre ++ null_char :: post))))) as [r1 H1].
  { rewrite length_combine, length_map, linebreaks_length. unfold f1. lia. }
  destruct (wrap_loop_returns f2 font' mw [] (combine (pre ++ null_char :: post')
              (map snd (lbs (pre ++ null_char :: post'))))) as [r2 H2].
  { rewrite length_combine, length_map, linebreaks_length. unfold f2. lia. }
  pose proof (wrap_loop_fuel_mono f1 font mw (f1 + f2) _ _ _ ltac:(lia) H1) as H1'.
  pose proof (wrap_loop_fuel_mono f2 font' mw (f1 + f2) _ _ _ ltac:(lia) H2) as H2'.
  rewrite H1, H2. rewrite Hc in H1'. rewrite Hc' in H2'.
  destruct (wrap_loop_null (f1 + f2) font font' mw [] P a a' Q Q') as ([r|] & E1 & E2);
    [done|done| |].
  - exists r. rewrite HQ in E1. rewrite HQ' in E2.
    rewrite E1 in H1'. rewrite E2 in H2'. simpl in H1', H2'.
    injection H1' as <-. injection H2' as <-. done.
  - rewrite E1 in H1'. done.
Qed.
End NullClaims.

(** ** The policy of one pass at a newline and at an overflow *)

Section PassPolicy.
(** C5. At a literal newline the pass continues with [current_width]
    reset to [0] and the same [break_point]; the newline's own width is
    never looked up (the pass is the same under any font that agrees off
    the newline) and its annotation is not recorded. A break point
    recorded before the newline is thus still the one used by a split
    triggered after it. *)
Theorem scan_newline_keeps_break_point (font font' : font_map) (mw : N)
    (cursor : nat) (cw : N) (bp : option nat)
    (a : option BreakOpportunity) (rest : list (Z * option BreakOpportunity)) :
  (forall c, c <> newline -> font !! c = font' !! c) ->
  scan font mw cursor cw bp ((newline, a) :: rest) =
  scan font' mw (S cursor) 0%N bp rest.
Proof.
  intros H. cbn [scan]. unfold newline at 1 2, null_char. cbn -[scan].
  apply scan_font_ext. intros c _ Hc. by apply H.
Qed.

(** The char at which the running width goes over [max_width] ends the
    pass before its own annotation is looked at: the outcome is the
    previously recorded break point, or [NoLegalLinebreakOpportunity],
    whatever that char's annotation is. *)
Theorem scan_overflow_ignores_annotation (font : font_map) (mw : N)
    (cursor : nat) (cw : N) (bp : option nat) (c : Z) (w : N)
    (a : option BreakOpportunity) (rest : list (Z * option BreakOpportunity)) :
  c <> null_char -> c <> newline -> font !! c = Some w ->
  (mw < usize_add cw w)%N ->
  scan font mw cursor cw bp ((c, a) :: rest) =
  match bp with
  | Some p => ScanSplit p
  | None => ScanErr NoLegalLinebreakOpportunity
  end.
Proof.
  intros H0 Hnl Hw Hgt. simpl.
  rewrite (proj2 (Z.eqb_neq _ _) H0), (proj2 (Z.eqb_neq _ _) Hnl), Hw.
  by rewrite (proj2 (N.ltb_lt _ _) Hgt).
Qed.
End PassPolicy.

(** ** The classifier *)

Section ClassifierClaims.
Variable PAGE_INDICES : list Z.
Variable BREAK_PROP_DATA : list (list Z).
Variable UNIFORM_PAGE : Z.
Variable BREAK_CLASS_COUNT : Z.
Variable Unknown : Z.

(** C8. Under the generator's invariant [tables_wf], [break_property]
    returns a valid [BreakClass] for every [u32] codepoint, with no panic
    and no invalid transmute; a codepoint whose high bits [cp >> 8] fall
    outside [PAGE_INDICES] is classified [Unknown]. *)
Theorem break_property_total :
  tables_wf PAGE_INDICES BREAK_PROP_DATA UNIFORM_PAGE BREAK_CLASS_COUNT Unknown ->
  forall cp : Z, (0 <= cp < 2 ^ 32)%Z ->
  (exists cls,
     break_property PAGE_INDICES BREAK_PROP_DATA UNIFORM_PAGE BREAK_CLASS_COUNT
       Unknown cp = Some cls /\ valid_class BREAK_CLASS_COUNT cls) /\
  (length PAGE_INDICES <= Z.to_nat (Z.shiftr cp 8) ->
   break_property PAGE_INDICES BREAK_PROP_DATA UNIFORM_PAGE BREAK_CLASS_COUNT
     Unknown cp = Some Unknown).
Proof.
  intros [HU Hwf] cp Hcp. unfold break_property. split.
  - destruct (PAGE_INDICES !! Z.to_nat (Z.shiftr cp 8)) as [page_idx|] eqn:Hp;
      [|by exists Unknown].
    rewrite Forall_lookup in Hwf. destruct (Hwf _ _ Hp) as [_ Hent].
    destruct (negb _).
    + unfold transmute_break_class. unfold valid_class in Hent.
      destruct (Z.leb_spec 0 (Z.land (Z.land page_idx (Z.lnot UNIFORM_PAGE)) 255));
        [|lia].
      destruct (Z.ltb_spec (Z.land (Z.land page_idx (Z.lnot UNIFORM_PAGE)) 255)
                  BREAK_CLASS_COUNT); [|lia].
      eexists; split; [reflexivity|done].
    + destruct Hent as (page & Hpg & Hlen & Hval). rewrite Hpg.
      assert (Hb : (0 <= Z.land cp 255 < 256)%Z).
      { split; [apply Z.land_nonneg; lia|].
        change 255%Z with (Z.ones 8). rewrite Z.land_ones by lia.
        pose proof (Z.mod_pos_bound cp (2 ^ 8)). lia. }
      destruct (lookup_lt_is_Some_2 page (Z.to_nat (Z.land cp 255))) as [cls Hcls];
        [lia|].
      rewrite Hcls. exists cls. split; [done|].
      rewrite Forall_lookup in Hval. by apply (Hval _ _ Hcls).
  - intros Hlen. by rewrite lookup_ge_None_2.
Qed.
End ClassifierClaims.

(** ** More of the wrapper and the scanner *)

Section ExtraFacts.

Lemma scan_split_annot font mw l : forall cursor cw bp p,
  scan font mw cursor cw bp l = ScanSplit p ->
  bp = Some p \/ (cursor <= p /\ exists c b, l !! (p - cursor) = Some (c, Some b)).
Proof.
  induction l as [|[c a] l IH]; intros cursor cw bp p H; simpl in H; [done|].
  destruct (c =? null_char)%Z; [done|].
  destruct (c =? newline)%Z.
  - apply IH in H as [H|(Hle & c' & b & Hl)]; [by left|right]. split; [lia|].
    exists c', b. replace (p - cursor) with (S (p - S cursor)) by lia. exact Hl.
  - destruct (font !! c) as [w|]; [|done].
    destruct (_ <? _)%N; [destruct bp; [injection H as ->; by left|done]|].
    destruct (option_is_some a && negb (cursor =? 0)) eqn:Hr;
      apply IH in H as [H|(Hle & c' & b & Hl)].
    + injection H as ->. right. split; [lia|]. rewrite Nat.sub_diag.
      destruct a as [b|]; [by exists c, b|simpl in Hr; discriminate].
    + right. split; [lia|]. exists c', b.
      replace (p - cursor) with (S (p - S cursor)) by lia. exact Hl.
    + by left.
    + right. split; [lia|]. exists c', b.
      replace (p - cursor) with (S (p - S cursor)) by lia. exact Hl.
Qed.

Lemma breaks_inserted_refl l : breaks_inserted l (map fst l).
Proof. induction l as [|[c a] l IH]; simpl; constructor; done. Qed.

Lemma breaks_inserted_app pre l w :
  breaks_inserted l w -> breaks_inserted (pre ++ l) (map fst pre ++ w).
Proof. intros H. induction pre as [|[c a] pre IH]; simpl; [done|]. by constructor. Qed.

Lemma wrap_loop_breaks fuel font mw : forall output chars w,
  wrap_loop fuel font mw output chars = Some (Ok w) ->
  exists w', w = output ++ w' /\ wrapped_from chars w'.
Proof.
  induction fuel as [|fuel IH]; intros output chars w H; [done|].
  cbn [wrap_loop] in H.
  destruct (scan font mw 0 0%N None chars) as [|p|e] eqn:Hs; [| |done].
  - injection H as <-. exists (map fst chars). split; [done|].
    destruct chars as [|[c a] rest]; [done|].
    exists (map fst rest). split; [done|]. apply breaks_inserted_refl.
  - pose proof Hs as Hp. apply scan_split_top in Hp as (Hp & _).
    apply scan_split_annot in Hs as [Hs|(_ & c' & b & Hl)]; [done|].
    rewrite Nat.sub_0_r in Hl.
    apply IH in H as (w1 & -> & Hw1).
    rewrite (drop_S _ _ _ Hl) in Hw1. destruct Hw1 as (w2 & -> & Hw2).
    destruct chars as [|[c0 a0] tl]; [simpl in Hp; lia|].
    destruct p as [|p]; [lia|]. simpl in Hl, Hw2.
    exists (c0 :: map fst (take p tl) ++ newline :: c' :: w2).
    split; [simpl; rewrite <- !app_assoc; simpl; by rewrite <- ?app_assoc|].
    exists (map fst (take p tl) ++ newline :: c' :: w2). split; [done|].
    assert (Hd : breaks_inserted (drop p tl) (newline :: c' :: w2)).
    { rewrite (drop_S _ _ _ Hl). by constructor. }
    pose proof (breaks_inserted_app (take p tl) (drop p tl) _ Hd) as Ht.
    by rewrite take_drop in Ht.
Qed.

Lemma scan_missing_at font mw l : forall cursor cw bp c,
  scan font mw cursor cw bp l = ScanErr (MissingCharacterWidth c) ->
  exists pre post, map fst l = pre ++ c :: post /\ ~ In null_char pre /\
    c <> null_char /\ c <> newline /\ font !! c = None.
Proof.
  induction l as [|[d a] l IH]; intros cursor cw bp c H; simpl in H; [done|].
  destruct (Z.eqb_spec d null_char) as [Hd0|Hd0]; [done|].
  destruct (Z.eqb_spec d newline) as [Hd|Hd].
  - apply IH in H as (pre & post & Hl & Hn & Hrest). exists (d :: pre), post.
    simpl. rewrite Hl. split; [done|]. split; [|done].
    intros [?|?]; [congruence|done].
  - destruct (font !! d) as [w|] eqn:Hw.
    + destruct (mw <? usize_add cw w)%N; [destruct bp; done|].
      apply IH in H as (pre & post & Hl & Hn & Hrest). exists (d :: pre), post.
      simpl. rewrite Hl. split; [done|]. split; [|done].
      intros [?|?]; [congruence|done].
    + injection H as <-. exists [], (map fst l). simpl. auto.
Qed.

Lemma wrap_loop_missing_at fuel font mw : forall output chars c,
  wrap_loop fuel font mw output chars = Some (Err (MissingCharacterWidth c)) ->
  exists pre post, map fst chars = pre ++ c :: post /\ ~ In null_char pre /\
    c <> null_char /\ c <> newline /\ font !! c = None.
Proof.
  induction fuel as [|fuel IH]; intros output chars c H; [done|].
  cbn [wrap_loop] in H.
  destruct (scan font mw 0 0%N None chars) as [|p|e] eqn:Hs; [done| |].
  - pose proof Hs as Hp. apply scan_split_top in Hp as (_ & _ & Hn).
    apply IH in H as (pre & post & Hl & Hpre & Hrest).
    exists (take p (map fst chars) ++ pre), post.
    split; [|split; [|done]].
    + rewrite <- app_assoc, <- Hl, map_drop_list. symmetry. apply take_drop.
    + intros Hin. apply in_app_or in Hin as [Hin|Hin]; auto.
  - injection H as ->. by apply scan_missing_at in Hs.
Qed.

Lemma wrap_loop_font_ext fuel font font' mw : forall output chars,
  (forall c, In c (map fst chars) -> c <> newline -> font !! c = font' !! c) ->
  wrap_loop fuel font mw output chars = wrap_loop fuel font' mw output chars.
Proof.
  induction fuel as [|fuel IH]; intros output chars H; [done|].
  cbn [wrap_loop]. rewrite (scan_font_ext font font' mw chars H).
  destruct (scan font' mw 0 0%N None chars); try done.
  apply IH. intros c Hc. apply H. rewrite map_drop_list in Hc.
  by apply in_drop_in in Hc.
Qed.

Lemma run_width_mono font mw mw' l : forall cw x,
  (mw <= mw')%N ->
  run_width font mw cw l = Some x -> run_width font mw' cw l = Some x.
Proof.
  induction l as [|c l IH]; intros cw x Hle H; [done|]. simpl in H |- *.
  destruct (c =? null_char)%Z; [done|].
  destruct (c =? newline)%Z; [by apply IH|].
  destruct (font !! c) as [w|]; [|done].
  destruct (N.ltb_spec mw (usize_add cw w)); [done|].
  destruct (N.ltb_spec mw' (usize_add cw w)); [lia|]. by apply IH.
Qed.

Lemma run_width_newlines font mw l : forall cw,
  (forall c, In c l -> c = newline) -> is_Some (run_width font mw cw l).
Proof.
  induction l as [|c l IH]; intros cw H; simpl; [by eexists|].
  rewrite (H c (or_introl eq_refl)). cbn -[run_width].
  apply IH. intros d Hd. apply H. by right.
Qed.

Lemma char_indices_from_lookup off s k c :
  s !! k = Some c -> exists i, char_indices_from off s !! k = Some (i, c).
Proof.
  revert off k; induction s as [|d s IH]; intros off [|k] H; simpl in H |- *;
    try done.
  - injection H as ->. by eexists.
  - by apply IH.
Qed.
End ExtraFacts.

Section ExtraClaims.
Variable classify : Z -> Z.
Variable PAIR_TABLE : Z -> Z -> Z.
Variables sot eot ZeroWidthJoiner : Z.
Variables ALLOWED_BREAK_BIT MANDATORY_BREAK_BIT : Z.

Local Abbreviation lbs := (linebreaks classify PAIR_TABLE sot eot ZeroWidthJoiner
                         ALLOWED_BREAK_BIT MANDATORY_BREAK_BIT).
Local Abbreviation wrap := (apply_newlines classify PAIR_TABLE sot eot ZeroWidthJoiner
                         ALLOWED_BREAK_BIT MANDATORY_BREAK_BIT).

Lemma items_lookup s k c :
  s !! k = Some c -> exists i, lb_items classify eot s !! k = Some (i, classify c).
Proof.
  intros H. destruct (char_indices_from_lookup 0 s k c H) as [i Hi]. exists i.
  unfold lb_items, char_indices. rewrite lookup_app_l.
  - by rewrite lookup_map_list, Hi.
  - rewrite length_map, char_indices_from_length. by apply lookup_lt_Some in H.
Qed.

(** The string [apply_newlines] returns is the input with newlines
    inserted: every char of the input is kept in order, the first one
    with no newline before it; a newline is inserted only before a char
    whose [linebreaks] annotation is [Some _], at most one before each,
    and never at the end. *)
Theorem apply_newlines_inserts_at_breaks (s : list Z) (mw : N) (font : font_map)
    (w : list Z) :
  wrap s mw font = Some (Ok w) ->
  wrapped_from (combine s (map snd (lbs s))) w.
Proof.
  rewrite apply_newlines_unfold. intros H.
  by apply wrap_loop_breaks in H as (w' & -> & H).
Qed.

(** [Err(MissingCharacterWidth(c))] names a char [c] of the input that
    comes before any null char, is neither a null char nor a newline, and
    has no width in the font. *)
Theorem apply_newlines_missing_width_char (s : list Z) (mw : N) (font : font_map)
    (c : Z) :
  wrap s mw font = Some (Err (MissingCharacterWidth c)) ->
  exists pre post, s = pre ++ c :: post /\ ~ In null_char pre /\
    c <> null_char /\ c <> newline /\ font !! c = None.
Proof.
  rewrite apply_newlines_unfold. intros H.
  apply wrap_loop_missing_at in H as (pre & post & Hl & Hrest).
  rewrite map_fst_combine in Hl by (rewrite length_map, linebreaks_length; lia).
  by exists pre, post.
Qed.

(** The result depends on the font only through the widths of the
    input's own chars other than newline: fonts that agree on them give
    the same result. *)
Theorem apply_newlines_font_ext (s : list Z) (mw : N) (font font' : font_map) :
  (forall c, In c s -> c <> newline -> font !! c = font' !! c) ->
  wrap s mw font = wrap s mw font'.
Proof.
  intros H. rewrite !apply_newlines_unfold. apply wrap_loop_font_ext.
  rewrite map_fst_combine by (rewrite length_map, linebreaks_length; lia).
  exact H.
Qed.

(** A string returned by [apply_newlines] for a budget [max_width] is
    returned unchanged by [apply_newlines] with the same font and any
    budget at least [max_width]. *)
Theorem apply_newlines_stable_wider_budget (s : list Z) (mw mw' : N)
    (font : font_map) (w : list Z) :
  apply_newlines classify PAIR_TABLE sot eot ZeroWidthJoiner
    ALLOWED_BREAK_BIT MANDATORY_BREAK_BIT s mw font = Some (Ok w) ->
  (mw <= mw')%N ->
  apply_newlines classify PAIR_TABLE sot eot ZeroWidthJoiner
    ALLOWED_BREAK_BIT MANDATORY_BREAK_BIT w mw' font = Some (Ok w).
Proof.
  intros H Hle. apply apply_newlines_ok in H as [[x Hx] _].
  apply apply_newlines_of_run_width. exists x.
  by apply (run_width_mono font mw mw' w 0%N x).
Qed.

(** Whatever the pair table, the annotation right after a char of the
    zero-width-joiner class (the next char's, or the [eot] sentinel's) is
    never [Allowed]: it is [Mandatory] or [None]. *)
Theorem linebreaks_no_allowed_after_zwj (s : list Z) (k : nat) (c : Z) :
  s !! k = Some c -> classify c = ZeroWidthJoiner ->
  snd <$> lbs s !! S k <> Some (Some Allowed).
Proof.
  intros Hc Hz. destruct (items_lookup s k c Hc) as [i Hk].
  destruct (lookup_lt_is_Some_2 (lb_items classify eot s) (S k)) as [[i' cls'] Hk'].
  { rewrite items_length. apply lookup_lt_Some in Hc. lia. }
  rewrite (linebreaks_lookup classify PAIR_TABLE sot eot ZeroWidthJoiner
             ALLOWED_BREAK_BIT MANDATORY_BREAK_BIT s (S k) i' cls' Hk').
  assert (Hflag : (lb_state_before PAIR_TABLE ZeroWidthJoiner ALLOWED_BREAK_BIT
             MANDATORY_BREAK_BIT (sot, false) (lb_items classify eot s) (S k)).2 = true).
  { rewrite (state_before_S PAIR_TABLE ZeroWidthJoiner ALLOWED_BREAK_BIT
               MANDATORY_BREAK_BIT _ _ k i (classify c) Hk).
    unfold lb_step. cbn [fst snd]. by rewrite Hz, Z.eqb_refl. }
  destruct (lb_state_before PAIR_TABLE ZeroWidthJoiner ALLOWED_BREAK_BIT
              MANDATORY_BREAK_BIT (sot, false) (lb_items classify eot s) (S k))
    as [q fl]. cbn [snd] in Hflag. subst fl.
  unfold lb_step. cbn [fst snd].
  destruct (negb (Z.land (PAIR_TABLE q cls') MANDATORY_BREAK_BIT =? 0)%Z),
           (negb (Z.land (PAIR_TABLE q cls') ALLOWED_BREAK_BIT =? 0)%Z);
    simpl; by intros [=].
Qed.

(** For a null-free input whose non-newline chars all have a width, the
    only error is [NoLegalLinebreakOpportunity], and it is returned only
    when some line of the input is wider than [max_width]. *)
Theorem apply_newlines_error_means_wide_line (s : list Z) (mw : N) (font : font_map)
    (e : LineBreakErr) :
  ~ In null_char s ->
  (forall c, In c s -> c <> newline -> is_Some (font !! c)) ->
  wrap s mw font = Some (Err e) ->
  e = NoLegalLinebreakOpportunity /\
  Exists (fun ln => (mw < line_width font ln)%N) (lines s).
Proof.
  intros Hn Hcov H. split.
  - destruct e as [c|]; [|done]. exfalso.
    rewrite apply_newlines_unfold in H.
    apply wrap_loop_missing in H as (Hin & Hnl & Hnone).
    rewrite map_fst_combine in Hin by (rewrite length_map, linebreaks_length; lia).
    destruct (Hcov c Hin Hnl) as [? Hsome]. congruence.
  - destruct (decide (Forall (fun ln => (line_width font ln <= mw)%N) (lines s)))
      as [Hf|Hf].
    + exfalso.
      assert (Hok : wrap s mw font = Some (Ok s)).
      { apply apply_newlines_of_run_width.
        apply (run_width_of_fitting_lines font mw s 0%N 0%N); [lia|done|done|].
        destruct (lines_cons_ne s) as (ln & lns & Hl). rewrite Hl in Hf |- *.
        inversion Hf; subst. split; [lia|done]. }
      congruence.
    + apply not_Forall_Exists in Hf; [|apply _].
      eapply Exists_impl; [exact Hf|]. intros ln Hln. simpl in Hln. lia.
Qed.

(** An input whose chars are all newlines (the empty string included) is
    returned unchanged, whatever the budget (even [0]) and the font (even
    empty). *)
Theorem apply_newlines_only_newlines (s : list Z) (mw : N) (font : font_map) :
  (forall c, In c s -> c = newline) -> wrap s mw font = Some (Ok s).
Proof.
  intros H. apply apply_newlines_of_run_width. by apply run_width_newlines.
Qed.
End ExtraClaims.

(** ** Concrete instances *)

Ltac not_in_list :=
  let H := fresh "H" in
  intros H; vm_compute in H;
  repeat (destruct H as [H|H]; [discriminate|]); exact H.

Ltac covered_by_font :=
  let c := fresh "c" in
  let Hc := fresh "Hc" in
  intros c Hc _; vm_compute in Hc;
  repeat (destruct Hc as [<-|Hc]; [vm_compute; eexists; reflexivity|]); destruct Hc.

(** C1 fails as stated: after a null char nothing is measured, so the
    single line of the result [\0aa] has width 3 with [max_width = 1]. *)
Lemma apply_newlines_null_line_too_wide :
  exists w, Uax14Fragment.frag_apply_newlines (0%Z :: str "aa") 1 make_font = Some (Ok w) /\
  exists ln, In ln (lines w) /\ (1 < line_width make_font ln)%N.
Proof.
  exists (0%Z :: str "aa"). split; [vm_compute; reflexivity|].
  exists (0%Z :: str "aa"). split; [vm_compute; left; reflexivity|vm_compute; reflexivity].
Qed.

Lemma apply_newlines_lines_fit_witness :
  ~ In null_char (str "aaa bbb") /\
  (text_width make_font (str "aaa bbb") < 2 ^ 64)%N /\
  Uax14Fragment.frag_apply_newlines (str "aaa bbb") 5 make_font =
    Some (Ok (str "aaa " ++ [newline] ++ str "bbb")) /\
  Forall (fun ln => (line_width make_font ln <= 5)%N)
    (lines (str "aaa " ++ [newline] ++ str "bbb")).
Proof.
  assert (Hn : ~ In null_char (str "aaa bbb")) by not_in_list.
  assert (Hw : (text_width make_font (str "aaa bbb") < 2 ^ 64)%N)
    by (vm_compute; reflexivity).
  assert (Hr : Uax14Fragment.frag_apply_newlines (str "aaa bbb") 5 make_font =
    Some (Ok (str "aaa " ++ [newline] ++ str "bbb"))) by (vm_compute; reflexivity).
  split; [exact Hn|]. split; [exact Hw|]. split; [exact Hr|].
  exact (proj1 (apply_newlines_lines_fit Uax14Fragment.classify Uax14Fragment.PAIR_TABLE
    Uax14Fragment.sot Uax14Fragment.eot Uax14Fragment.ZWJ
    Uax14Fragment.ALLOWED_BREAK_BIT Uax14Fragment.MANDATORY_BREAK_BIT
    (str "aaa bbb") 5 make_font Hn Hw) _ Hr).
Defined.

(** C2: on ["aaa bbb"] with [max_width = 4] and width 1 per char, the
    break allowed before ['b'] (offset 4, after the space, UAX #14 LB18)
    would give the lines ["aaa "] (width 4) and ["bbb"] (width 3), which
    fit; but that break sits at the char where the width goes over, whose
    annotation is never recorded, so the call fails with
    [NoLegalLinebreakOpportunity]. *)
Theorem apply_newlines_misses_break_at_overflow :
  Uax14Fragment.frag_linebreaks (str "aaa bbb") !! 4 = Some (4, Some Allowed) /\
  (line_width make_font (str "aaa ") <= 4)%N /\
  (line_width make_font (str "bbb") <= 4)%N /\
  Uax14Fragment.frag_apply_newlines (str "aaa bbb") 4 make_font =
    Some (Err NoLegalLinebreakOpportunity).
Proof.
  split; [vm_compute; reflexivity|].
  split; [vm_compute; discriminate|].
  split; [vm_compute; discriminate|].
  vm_compute; reflexivity.
Qed.

(** C3 fails as stated: the annotation at a codepoint is the verdict for
    the break before it. In ["a b"] a break is allowed after the space
    (offset 1, UAX #14 LB18); the space's annotation is [None] and the
    [Allowed] verdict sits at ['b'] (offset 2). The verdict after the last
    codepoint (LB3, mandatory) is the sentinel's. *)
Lemma linebreaks_annotation_is_before :
  nth 1 (str "a b") 0%Z = 32%Z /\
  Uax14Fragment.frag_linebreaks (str "a b") =
    [(0, None); (1, None); (2, Some Allowed); (3, Some Mandatory)].
Proof. split; vm_compute; reflexivity. Qed.

Lemma linebreaks_zwj_suppression_witness :
  lb_items Uax14Fragment.classify Uax14Fragment.eot [8205; 97]%Z !! 1 =
    Some (3, Uax14Fragment.AL) /\
  linebreaks Uax14Fragment.classify (fun _ _ => 128%Z) Uax14Fragment.sot
    Uax14Fragment.eot Uax14Fragment.ZWJ 128 64 [8205; 97]%Z !! 1 = Some (3, None).
Proof.
  assert (Hk : lb_items Uax14Fragment.classify Uax14Fragment.eot [8205; 97]%Z !! 1 =
    Some (3, Uax14Fragment.AL)) by (vm_compute; reflexivity).
  split; [exact Hk|].
  pose proof (linebreaks_zwj_suppression Uax14Fragment.classify (fun _ _ => 128%Z)
    Uax14Fragment.sot Uax14Fragment.eot Uax14Fragment.ZWJ 128 64 [8205; 97]%Z 1 3
    Uax14Fragment.AL Hk) as H.
  cbv zeta in H. destruct H as (_ & H & _).
  apply H; vm_compute; reflexivity.
Defined.

Lemma scan_newline_keeps_break_point_witness :
  scan make_font 3 0 0%N None
    [(97%Z, None); (32%Z, None); (98%Z, Some Allowed); (newline, None);
     (99%Z, None); (99%Z, None); (99%Z, None); (99%Z, None)] = ScanSplit 2 /\
  scan make_font 3 3 3%N (Some 2)
    [(newline, None); (99%Z, None); (99%Z, None); (99%Z, None); (99%Z, None)] =
  scan (<[newline := 1000%N]> make_font) 3 4 0%N (Some 2)
    [(99%Z, None); (99%Z, None); (99%Z, None); (99%Z, None)].
Proof.
  split; [vm_compute; reflexivity|].
  apply scan_newline_keeps_break_point.
  intros c Hc. rewrite lookup_insert_ne; [done|congruence].
Defined.

Lemma apply_newlines_unchanged_when_fits_witness :
  Uax14Fragment.frag_apply_newlines (str "aaa bbb") 10 make_font =
    Some (Ok (str "aaa bbb")).
Proof.
  apply (apply_newlines_unchanged_when_fits Uax14Fragment.classify Uax14Fragment.PAIR_TABLE
    Uax14Fragment.sot Uax14Fragment.eot Uax14Fragment.ZWJ
    Uax14Fragment.ALLOWED_BREAK_BIT Uax14Fragment.MANDATORY_BREAK_BIT).
  - not_in_list.
  - covered_by_font.
  - vm_compute. repeat constructor; discriminate.
Defined.

Lemma apply_newlines_idempotent_witness :
  Uax14Fragment.frag_apply_newlines (str "aaa bbb") 5 make_font =
    Some (Ok (str "aaa " ++ [newline] ++ str "bbb")) /\
  Uax14Fragment.frag_apply_newlines (str "aaa " ++ [newline] ++ str "bbb") 5 make_font =
    Some (Ok (str "aaa " ++ [newline] ++ str "bbb")).
Proof.
  assert (H : Uax14Fragment.frag_apply_newlines (str "aaa bbb") 5 make_font =
    Some (Ok (str "aaa " ++ [newline] ++ str "bbb"))) by (vm_compute; reflexivity).
  split; [exact H|].
  exact (apply_newlines_idempotent Uax14Fragment.classify Uax14Fragment.PAIR_TABLE
    Uax14Fragment.sot Uax14Fragment.eot Uax14Fragment.ZWJ
    Uax14Fragment.ALLOWED_BREAK_BIT Uax14Fragment.MANDATORY_BREAK_BIT _ _ _ _ H).
Defined.

Lemma break_property_total_witness :
  tables_wf [Z.lor 32768 5; 0]%Z [repeat 7%Z 256] 32768 43 42 /\
  break_property [Z.lor 32768 5; 0]%Z [repeat 7%Z 256] 32768 43 42 65 = Some 5%Z /\
  break_property [Z.lor 32768 5; 0]%Z [repeat 7%Z 256] 32768 43 42 70000 = Some 42%Z.
Proof.
  assert (Hwf : tables_wf [Z.lor 32768 5; 0]%Z [repeat 7%Z 256] 32768 43 42).
  { split; [unfold valid_class; lia|].
    constructor; [split; cbv -[Z.le Z.lt]; lia|].
    constructor; [|constructor].
    split; [lia|]. exists (repeat 7%Z 256). split; [reflexivity|].
    split; [reflexivity|].
    apply List.Forall_forall. intros x Hx. apply repeat_spec in Hx. subst x.
    unfold valid_class. lia. }
  split; [exact Hwf|]. split; [vm_compute; reflexivity|].
  apply (break_property_total _ _ _ _ _ Hwf); [lia|vm_compute; lia].
Defined.

Lemma apply_newlines_null_tail_witness :
  exists r,
    Uax14Fragment.frag_apply_newlines ([97] ++ null_char :: [97; 97])%Z 1 make_font =
      Some (with_tail (null_char :: [97; 97]%Z) r) /\
    Uax14Fragment.frag_apply_newlines ([97] ++ null_char :: [5000])%Z 1 make_font =
      Some (with_tail (null_char :: [5000%Z]) r).
Proof.
  apply (apply_newlines_null_tail Uax14Fragment.classify Uax14Fragment.PAIR_TABLE
    Uax14Fragment.sot Uax14Fragment.eot Uax14Fragment.ZWJ
    Uax14Fragment.ALLOWED_BREAK_BIT Uax14Fragment.MANDATORY_BREAK_BIT).
  - not_in_list.
  - intros c _. reflexivity.
Defined.

Lemma apply_newlines_inserts_at_breaks_witness :
  Uax14Fragment.frag_apply_newlines (str "aaa bbb") 5 make_font =
    Some (Ok (str "aaa " ++ [newline] ++ str "bbb")) /\
  wrapped_from (combine (str "aaa bbb")
                  (map snd (Uax14Fragment.frag_linebreaks (str "aaa bbb"))))
    (str "aaa " ++ [newline] ++ str "bbb").
Proof.
  assert (H : Uax14Fragment.frag_apply_newlines (str "aaa bbb") 5 make_font =
    Some (Ok (str "aaa " ++ [newline] ++ str "bbb"))) by (vm_compute; reflexivity).
  split; [exact H|].
  exact (apply_newlines_inserts_at_breaks Uax14Fragment.classify Uax14Fragment.PAIR_TABLE
    Uax14Fragment.sot Uax14Fragment.eot Uax14Fragment.ZWJ
    Uax14Fragment.ALLOWED_BREAK_BIT Uax14Fragment.MANDATORY_BREAK_BIT _ _ _ _ H).
Defined.

Lemma apply_newlines_missing_width_char_witness :
  Uax14Fragment.frag_apply_newlines (str "ab" ++ [8804%Z]) 30 make_font =
    Some (Err (MissingCharacterWidth 8804)) /\
  exists pre post, str "ab" ++ [8804%Z] = pre ++ 8804%Z :: post /\
    ~ In null_char pre /\ 8804%Z <> null_char /\ 8804%Z <> newline /\
    make_font !! 8804%Z = None.
Proof.
  assert (H : Uax14Fragment.frag_apply_newlines (str "ab" ++ [8804%Z]) 30 make_font =
    Some (Err (MissingCharacterWidth 8804))) by (vm_compute; reflexivity).
  split; [exact H|].
  exact (apply_newlines_missing_width_char Uax14Fragment.classify Uax14Fragment.PAIR_TABLE
    Uax14Fragment.sot Uax14Fragment.eot Uax14Fragment.ZWJ
    Uax14Fragment.ALLOWED_BREAK_BIT Uax14Fragment.MANDATORY_BREAK_BIT _ _ _ _ H).
Defined.

Lemma apply_newlines_font_ext_witness :
  Uax14Fragment.frag_apply_newlines (str "ab") 1 make_font =
  Uax14Fragment.frag_apply_newlines (str "ab") 1 (<[8804%Z := 7%N]> make_font).
Proof.
  apply (apply_newlines_font_ext Uax14Fragment.classify Uax14Fragment.PAIR_TABLE
    Uax14Fragment.sot Uax14Fragment.eot Uax14Fragment.ZWJ
    Uax14Fragment.ALLOWED_BREAK_BIT Uax14Fragment.MANDATORY_BREAK_BIT).
  intros c Hc _. rewrite lookup_insert_ne; [done|]. intros <-.
  revert Hc. not_in_list.
Defined.

Lemma apply_newlines_stable_wider_budget_witness :
  Uax14Fragment.frag_apply_newlines (str "aaa bbb") 5 make_font =
    Some (Ok (str "aaa " ++ [newline] ++ str "bbb")) /\
  Uax14Fragment.frag_apply_newlines (str "aaa " ++ [newline] ++ str "bbb") 9 make_font =
    Some (Ok (str "aaa " ++ [newline] ++ str "bbb")).
Proof.
  assert (H : Uax14Fragment.frag_apply_newlines (str "aaa bbb") 5 make_font =
    Some (Ok (str "aaa " ++ [newline] ++ str "bbb"))) by (vm_compute; reflexivity).
  split; [exact H|].
  exact (apply_newlines_stable_wider_budget Uax14Fragment.classify
    Uax14Fragment.PAIR_TABLE Uax14Fragment.sot Uax14Fragment.eot Uax14Fragment.ZWJ
    Uax14Fragment.ALLOWED_BREAK_BIT Uax14Fragment.MANDATORY_BREAK_BIT _ _ 9 _ _ H
    ltac:(lia)).
Defined.

Lemma linebreaks_no_allowed_after_zwj_witness :
  Uax14Fragment.classify 8205 = Uax14Fragment.ZWJ /\
  snd <$> linebreaks Uax14Fragment.classify (fun _ _ => 128%Z) Uax14Fragment.sot
    Uax14Fragment.eot Uax14Fragment.ZWJ 128 64 [8205; 97]%Z !! 1 <> Some (Some Allowed).
Proof.
  assert (Hz : Uax14Fragment.classify 8205 = Uax14Fragment.ZWJ) by reflexivity.
  split; [exact Hz|].
  exact (linebreaks_no_allowed_after_zwj Uax14Fragment.classify (fun _ _ => 128%Z)
    Uax14Fragment.sot Uax14Fragment.eot Uax14Fragment.ZWJ 128 64 [8205; 97]%Z 0 8205
    eq_refl Hz).
Defined.

Lemma apply_newlines_error_means_wide_line_witness :
  Uax14Fragment.frag_apply_newlines (str "aaa bbb") 4 make_font =
    Some (Err NoLegalLinebreakOpportunity) /\
  NoLegalLinebreakOpportunity = NoLegalLinebreakOpportunity /\
  Exists (fun ln => (4 < line_width make_font ln)%N) (lines (str "aaa bbb")).
Proof.
  assert (H : Uax14Fragment.frag_apply_newlines (str "aaa bbb") 4 make_font =
    Some (Err NoLegalLinebreakOpportunity)) by (vm_compute; reflexivity).
  split; [exact H|].
  apply (apply_newlines_error_means_wide_line Uax14Fragment.classify
    Uax14Fragment.PAIR_TABLE Uax14Fragment.sot Uax14Fragment.eot Uax14Fragment.ZWJ
    Uax14Fragment.ALLOWED_BREAK_BIT Uax14Fragment.MANDATORY_BREAK_BIT).
  - not_in_list.
  - covered_by_font.
  - exact H.
Defined.

Lemma apply_newlines_only_newlines_witness :
  Uax14Fragment.frag_apply_newlines [newline; newline] 0 ∅ = Some (Ok [newline; newline]).
Proof.
  apply (apply_newlines_only_newlines Uax14Fragment.classify Uax14Fragment.PAIR_TABLE
    Uax14Fragment.sot Uax14Fragment.eot Uax14Fragment.ZWJ
    Uax14Fragment.ALLOWED_BREAK_BIT Uax14Fragment.MANDATORY_BREAK_BIT).
  intros c [<-|[<-|[]]]; reflexivity.
Defined.
